(** * pyroblack: [set_profile_photo] and the upload core it calls

    The first part embeds [pyrogram/methods/users/set_profile_photo.py].
    The method is asynchronous glue over two client helpers, [save_file]
    and [invoke]; it is embedded as a program over exactly these two
    operations and run against arbitrary handlers for them, which thread
    a world (client fields, disk, globals) and may raise.

    The second part models the collaborators the specification describes
    (PartPlanner, UploadSession, ConcurrencyLimiter), whose code is not
    part of the source at hand. *)

From Stdlib Require Import ZArith NArith Lia.
From stdpp Require Import base gmap sets list strings.

Set Warnings "-clear-no-such-hyp".

(** ** Python values at the method's boundary *)

(** [Union[str, BinaryIO]]: a path, or a binary file-like object carrying
    its [.name]. *)
Inductive byte_source : Type :=
| Path (p : string)
| BinaryIO (name : string).

(** [emoji_background: Union[int, List[int]] = None]. *)
Inductive background : Type :=
| BgNone
| BgInt (c : Z)
| BgList (cs : list Z).

(** [raw.types.VideoSizeEmojiMarkup(emoji_id=..., background_colors=...)]. *)
Record VideoSizeEmojiMarkup : Type := {
  emoji_id : Z;
  background_colors : list Z
}.

(** Truth value of [emoji: int = None] in [if emoji:]. *)
Definition truthy (emoji : option Z) : bool :=
  match emoji with
  | None => false
  | Some n => negb (n =? 0)%Z
  end.

(** Lines 85-94: the local [emoji_id], which holds the markup or [None].

<<
    emoji_id = None
    if emoji:
        background_colors = (
            emoji_background if emoji_background is not None else [0xFFFFFF]
        )
        if isinstance(background_colors, int):
            background_colors = [background_colors]
        emoji_id = raw.types.VideoSizeEmojiMarkup(
            emoji_id=emoji, background_colors=background_colors
        )
>> *)
Definition emoji_markup (emoji : option Z) (emoji_background : background)
  : option VideoSizeEmojiMarkup :=
  match emoji with
  | Some e =>
      if truthy (Some e) then
        let background_colors : Z + list Z :=
          match emoji_background with
          | BgNone => inr [0xFFFFFF%Z]
          | BgInt c => inl c
          | BgList cs => inr cs
          end in
        let background_colors : list Z :=
          match background_colors with
          | inl c => [c]
          | inr cs => cs
          end in
        Some {| emoji_id := e; background_colors := background_colors |}
      else None
  | None => None
  end.

Section Client.

(** What [save_file] returns, what [invoke] returns and the exceptions
    that can be raised. Python's [bool(...)] on a response runs the
    response's [__bool__] or [__len__]: it gives the truth value, or the
    exception that method raises. *)
Variables SavedFile Response Exn : Type.
Variable py_bool : Response -> Exn + bool.

(** [raw.functions.photos.UploadProfilePhoto(fallback=, file=,
    video_emoji_markup=, video=)]. *)
Record UploadProfilePhoto : Type := {
  fallback : option bool;
  file : SavedFile;
  video_emoji_markup : option VideoSizeEmojiMarkup;
  video : SavedFile
}.

(** Programs over the two awaited helpers; a program ends by returning
    or by raising. *)
Inductive prog (A : Type) : Type :=
| Return (a : A)
| Raise (e : Exn)
| SaveFile (src : option byte_source) (k : SavedFile -> prog A)
| Invoke (req : UploadProfilePhoto) (k : Response -> prog A).

Arguments Return {A} a.
Arguments Raise {A} e.
Arguments SaveFile {A} src k.
Arguments Invoke {A} req k.

Fixpoint bind {A B : Type} (p : prog A) (f : A -> prog B) : prog B :=
  match p with
  | Return a => f a
  | Raise e => Raise e
  | SaveFile src k => SaveFile src (fun r => bind (k r) f)
  | Invoke req k => Invoke req (fun r => bind (k r) f)
  end.

Definition save_file (src : option byte_source) : prog SavedFile :=
  SaveFile src Return.
Definition invoke (req : UploadProfilePhoto) : prog Response :=
  Invoke req Return.

#[local] Instance prog_ret : MRet prog := @Return.
#[local] Instance prog_bind : MBind prog := fun A B f p => bind p f.

(** Lines 96-105. Keyword arguments are evaluated left to right, so
    [save_file(photo)] is awaited before [save_file(video)], the request
    is built from both results, and [invoke] is awaited last; [bool] is
    then applied to the response, and what it raises is raised by the
    method. *)
Definition set_profile_photo
    (photo : option byte_source) (emoji : option Z)
    (emoji_background : background) (video : option byte_source)
    (is_public : option bool) : prog bool :=
  let emoji_id := emoji_markup emoji emoji_background in
  file_ ← save_file photo;
  video_ ← save_file video;
  r ← invoke {| fallback := is_public;
                file := file_;
                video_emoji_markup := emoji_id;
                video := video_ |};
  match py_bool r with
  | inr b => mret b
  | inl e => Raise e
  end.

(** ** Running a program against the client *)

Inductive call : Type :=
| CSaveFile (src : option byte_source)
| CInvoke (req : UploadProfilePhoto).

Section Run.

(** The world the helpers act on, and the helpers themselves: each
    returns normally or raises, and leaves a new world. *)
Variable World : Type.
Variable do_save_file : option byte_source -> World -> (Exn + SavedFile) * World.
Variable do_invoke : UploadProfilePhoto -> World -> (Exn + Response) * World.

Record outcome (A : Type) : Type := {
  result : Exn + A;
  world : World;
  calls : list call
}.
Arguments result {A} o.
Arguments world {A} o.
Arguments calls {A} o.

(** [run p w log]: the helper calls are appended to [log] in the order
    they are made; an exception ends the program. *)
Fixpoint run {A : Type} (p : prog A) (w : World) (log : list call) : outcome A :=
  match p with
  | Return a => {| result := inr a; world := w; calls := log |}
  | Raise e => {| result := inl e; world := w; calls := log |}
  | SaveFile src k =>
      match do_save_file src w with
      | (inl e, w') =>
          {| result := inl e; world := w'; calls := log ++ [CSaveFile src] |}
      | (inr f, w') => run (k f) w' (log ++ [CSaveFile src])
      end
  | Invoke req k =>
      match do_invoke req w with
      | (inl e, w') =>
          {| result := inl e; world := w'; calls := log ++ [CInvoke req] |}
      | (inr r, w') => run (k r) w' (log ++ [CInvoke req])
      end
  end.

Definition invoked (log : list call) : list UploadProfilePhoto :=
  omap (fun c => match c with CInvoke req => Some req | _ => None end) log.

Definition saved (log : list call) : list (option byte_source) :=
  omap (fun c => match c with CSaveFile src => Some src | _ => None end) log.

End Run.

End Client.

Arguments Return {SavedFile Response Exn A} a.
Arguments Raise {SavedFile Response Exn A} e.
Arguments SaveFile {SavedFile Response Exn A} src k.
Arguments Invoke {SavedFile Response Exn A} req k.
Arguments CSaveFile {SavedFile} src.
Arguments CInvoke {SavedFile} req.
Arguments fallback {SavedFile} u.
Arguments file {SavedFile} u.
Arguments video_emoji_markup {SavedFile} u.
Arguments video {SavedFile} u.
Arguments set_profile_photo {SavedFile Response Exn} py_bool photo emoji
  emoji_background video is_public.
Arguments run {SavedFile Response Exn World} do_save_file do_invoke {A} p w log.
Arguments result {SavedFile Exn World A} o.
Arguments world {SavedFile Exn World A} o.
Arguments calls {SavedFile Exn World A} o.
Arguments invoked {SavedFile} log.
Arguments saved {SavedFile} log.

(** * The upload core described by the specification

    [save_file] and [invoke] are collaborators of the method above; their
    code is not part of the source at hand. The components below follow
    the specification's description of them. *)

Module PartPlanner.

(** Modelled from the spec: the byte range of one part, "per-part byte
    ranges" of section 4.1. The range is [[offset, offset + len)]. *)
Record PartRange : Type := {
  part_index : N;
  offset : N;
  len : N
}.

(** Modelled from the spec: PartLayout, the result of
    [plan(size: Optional<u64>, chunk_size_hint)]: "the part size, part
    count, and per-part byte ranges". Count and ranges are undetermined
    ([None]) for a source of unknown size. *)
Record PartLayout : Type := {
  part_size : N;
  part_count : option N;
  ranges : option (list PartRange)
}.

Definition ceil_div (a b : N) : N := ((a + b - 1) / b)%N.

Definition covers (b : N) (r : PartRange) : Prop :=
  (offset r <= b < offset r + len r)%N.

Section Plan.

(** Modelled from the spec: the "fixed table keyed by size thresholds"
    and "the protocol's part-count limit" are external protocol constants
    (section 9, open question); they are parameters here. *)
Variable part_size_table : option N -> N -> N.
Variable part_count_limit : N.

(** Modelled from the spec: section 4.1, "capped so part_count fits the
    protocol's part-count limit - recompute part size upward if the naive
    count would exceed the limit"; "for unknown size, part size is
    fixed". *)
Definition choose_part_size (size : option N) (chunk_size_hint : N) : N :=
  let naive := part_size_table size chunk_size_hint in
  match size with
  | Some n =>
      if (part_count_limit <? ceil_div n naive)%N
      then ceil_div n part_count_limit
      else naive
  | None => naive
  end.

(** Modelled from the spec: section 8, "part_count = ceil(N / part_size)
    (or 1 if N = 0)". *)
Definition count_parts (n ps : N) : N :=
  if (n =? 0)%N then 1%N else ceil_div n ps.

(** Modelled from the spec: part [i] starts at [i * part_size] and is
    "fixed-size (except possibly the last)" (glossary). *)
Definition range_of (n ps i : N) : PartRange :=
  {| part_index := i; offset := (i * ps)%N; len := N.min ps (n - i * ps)%N |}.

Definition ranges_of (n ps : N) : list PartRange :=
  map (fun i => range_of n ps (N.of_nat i)) (seq 0 (N.to_nat (count_parts n ps))).

(** Modelled from the spec: the contract of section 4.1 for known and
    unknown size. *)
Definition plan (size : option N) (chunk_size_hint : N) : PartLayout :=
  let ps := choose_part_size size chunk_size_hint in
  match size with
  | Some n =>
      {| part_size := ps;
         part_count := Some (count_parts n ps);
         ranges := Some (ranges_of n ps) |}
  | None => {| part_size := ps; part_count := None; ranges := None |}
  end.

End Plan.

End PartPlanner.

Module UploadSession.

Import PartPlanner.

(** Modelled from the spec: the error kinds of section 7 a part's
    invocation can end with. *)
Inductive Cause : Type :=
| LinkDown
| TimedOut
| FloodWait (remaining : N)
| Indeterminate
| PermanentRejection (code : Z) (message : string).

(** Modelled from the spec: what [upload] can fail with (sections 4.1,
    4.2 and 7). *)
Inductive UploadError : Type :=
| SizeMismatch
| UploadFailed (part_index : N) (cause : Cause).

(** Modelled from the spec: RetryPolicy of section 3, "max attempts ...
    and the set of error kinds classified as retryable"; the backoff
    schedule only spaces the attempts in time and is left out. *)
Record RetryPolicy : Type := {
  max_attempts : nat;
  retryable : Cause -> bool
}.

(** Modelled from the spec: ByteSource of section 3, with the bytes the
    source yields when read. *)
Record ByteSource : Type := {
  size : option N;
  name : string;
  bytes : list Byte.byte
}.

(** Modelled from the spec: FilePart of section 3; [fp_part_count = None]
    is the sentinel "unknown, terminate on short read". *)
Record FilePart : Type := {
  fp_file_id : N;
  fp_part_index : N;
  fp_part_count : option N;
  fp_bytes : list Byte.byte
}.

(** Modelled from the spec: UploadState of section 3. *)
Record UploadState : Type := {
  file_id : N;
  acknowledged : gset N;
  total_parts : option N;
  is_big : bool
}.

(** Modelled from the spec: recording a positive acknowledgement of a
    part index in the session's acknowledgement set. *)
Definition acknowledge (i : N) (st : UploadState) : UploadState :=
  {| file_id := file_id st;
     acknowledged := {[ i ]} ∪ acknowledged st;
     total_parts := total_parts st;
     is_big := is_big st |}.

(** Modelled from the spec: the invariant of UploadState, "upload is
    complete iff every index in [0, total_parts) is in acknowledged
    (known-size case) or the terminal short part has been acknowledged
    (unknown-size case)"; [terminal] is the index of the short part once
    it has been read. *)
Definition is_complete (terminal : option N) (st : UploadState) : bool :=
  match total_parts st with
  | Some n =>
      forallb (fun i => bool_decide (N.of_nat i ∈ acknowledged st))
              (seq 0 (N.to_nat n))
  | None =>
      match terminal with
      | Some t => bool_decide (t ∈ acknowledged st)
      | None => false
      end
  end.

Definition actual_size (src : ByteSource) : N := N.of_nat (length (bytes src)).

Definition read_range (src : ByteSource) (off n : N) : list Byte.byte :=
  take (N.to_nat n) (drop (N.to_nat off) (bytes src)).

Inductive SendResult : Type :=
| Acked
| Failed (cause : Cause).

Section Upload.

Variable part_size_table : option N -> N -> N.
Variable part_count_limit : N.
Variable chunk_size_hint : N.
Variable policy : RetryPolicy.

(** Modelled from the spec: the InvocationDispatcher as seen from the
    session: the result of the [attempt]-th submission of a save-part
    request. *)
Variable send : FilePart -> nat -> SendResult.

Definition layout (src : ByteSource) : PartLayout :=
  plan part_size_table part_count_limit (size src) chunk_size_hint.

(** Modelled from the spec: section 4.1, for unknown size "the last part
    is recognized by reading fewer bytes than the part size (including
    zero ...)": the short part is the one at index [actual / part_size]. *)
Definition terminal_index (src : ByteSource) : option N :=
  match size src with
  | Some _ => None
  | None => Some (actual_size src / part_size (layout src))%N
  end.

(** Modelled from the spec: section 4.2, "reads parts per the plan, wraps
    each in a save-part request tagged with (file_id, part_index,
    part_count)". *)
Definition parts_of (fid : N) (src : ByteSource) : list FilePart :=
  let lay := layout src in
  match ranges lay with
  | Some rs =>
      map (fun r => {| fp_file_id := fid;
                       fp_part_index := part_index r;
                       fp_part_count := part_count lay;
                       fp_bytes := read_range src (offset r) (len r) |}) rs
  | None =>
      map (fun i => {| fp_file_id := fid;
                       fp_part_index := N.of_nat i;
                       fp_part_count := None;
                       fp_bytes := read_range src (N.of_nat i * part_size lay)
                                     (part_size lay) |})
          (seq 0 (S (N.to_nat (actual_size src / part_size lay))))
  end.

(** Modelled from the spec: section 4.2, "a part whose invocation fails
    with a retryable error is resubmitted up to the RetryPolicy attempt
    limit"; an authoritative error is not retried (section 7). The
    result is the number of the acknowledged attempt, or the last
    cause. *)
Fixpoint attempt_part (p : FilePart) (retries_left attempt : nat) : Cause + nat :=
  match send p attempt with
  | Acked => inr attempt
  | Failed c =>
      if retryable policy c then
        match retries_left with
        | S r => attempt_part p r (S attempt)
        | O => inl c
        end
      else inl c
  end.

(** A part is submitted at least once; [max_attempts] bounds the
    submissions of one part. *)
Definition budget : nat := S (pred (max_attempts policy)).

Definition submit (p : FilePart) : Cause + nat :=
  attempt_part p (pred (max_attempts policy)) 0.

(** Modelled from the spec: section 4.2, the sequential upload (K = 1):
    "exhausting retries aborts the whole upload with
    UploadFailed{part_index, cause}". *)
Fixpoint upload_parts (st : UploadState) (ps : list FilePart)
  : UploadError + UploadState :=
  match ps with
  | [] => inr st
  | p :: rest =>
      match submit p with
      | inr _ => upload_parts (acknowledge (fp_part_index p) st) rest
      | inl c => inl (UploadFailed (fp_part_index p) c)
      end
  end.

(** Modelled from the spec: section 3, [is_big] (>10MB) is "decided once
    at session start from size"; the spec gives no rule for a source of
    unknown size, which starts as not big here. *)
Definition start (fid : N) (src : ByteSource) : UploadState :=
  {| file_id := fid;
     acknowledged := ∅;
     total_parts := part_count (layout src);
     is_big := match size src with
               | Some n => (10 * 1024 * 1024 <? n)%N
               | None => false
               end |}.

(** Modelled from the spec: section 4.1, "source byte count inconsistent
    with declared size -> fails with SizeMismatch". *)
Definition size_consistent (src : ByteSource) : bool :=
  match size src with
  | Some n => (n =? actual_size src)%N
  | None => true
  end.

Definition run_upload (fid : N) (src : ByteSource) : UploadError + UploadState :=
  if size_consistent src
  then upload_parts (start fid src) (parts_of fid src)
  else inl SizeMismatch.

(** Modelled from the spec: [upload(source: ByteSource) -> file_id]. *)
Definition upload (fid : N) (src : ByteSource) : UploadError + N :=
  match run_upload fid src with
  | inr st => inr (file_id st)
  | inl e => inl e
  end.

(** A part "eventually succeeds within the retry budget". *)
Definition succeeds_within_budget (p : FilePart) : Prop :=
  ∃ a, (a < budget)%nat ∧ send p a = Acked ∧
       ∀ a', (a' < a)%nat → ∃ c, send p a' = Failed c ∧ retryable policy c = true.

(** A part "exhausts its retries". *)
Definition exhausts_retries (p : FilePart) : Prop :=
  ∀ a, (a < budget)%nat → ∃ c, send p a = Failed c ∧ retryable policy c = true.

End Upload.

End UploadSession.

Module ConcurrencyLimiter.

(** Modelled from the spec: how the scope holding a permit exits
    (section 4.5: "success or failure"; section 5: expiry). *)
Inductive Exit : Type :=
| Success
| Failure
| Expired.

(** Modelled from the spec: section 4.5, "a simple counting semaphore per
    connection pool"; [holders] are the invocations holding a permit
    (sent but unresolved), [waiters] the callers blocked in [acquire], in
    FIFO order. *)
Record Limiter : Type := {
  capacity : nat;
  available : nat;
  holders : list nat;
  waiters : list nat
}.

Inductive Event : Type :=
| Acquire (t : nat)
| Release (t : nat) (how : Exit).

Definition init (K : nat) : Limiter :=
  {| capacity := K; available := K; holders := []; waiters := [] |}.

Definition remove (t : nat) (l : list nat) : list nat :=
  filter (fun x => x ≠ t) l.

(** Modelled from the spec: [acquire] takes a free slot or blocks the
    caller; the permit "is released automatically when the scope exits
    (success or failure)", and the freed slot goes to the longest waiting
    caller. [None]: the event cannot happen in this state. *)
Definition step (l : Limiter) (e : Event) : option Limiter :=
  match e with
  | Acquire t =>
      if bool_decide (t ∈ holders l ∨ t ∈ waiters l) then None
      else
        match available l with
        | S n =>
            Some {| capacity := capacity l; available := n;
                    holders := holders l ++ [t]; waiters := waiters l |}
        | O =>
            Some {| capacity := capacity l; available := O;
                    holders := holders l; waiters := waiters l ++ [t] |}
        end
  | Release t _ =>
      if bool_decide (t ∈ holders l) then
        match waiters l with
        | [] =>
            Some {| capacity := capacity l; available := S (available l);
                    holders := remove t (holders l); waiters := [] |}
        | w :: ws =>
            Some {| capacity := capacity l; available := available l;
                    holders := remove t (holders l) ++ [w]; waiters := ws |}
        end
      else None
  end.

Fixpoint exec (l : Limiter) (es : list Event) : option Limiter :=
  match es with
  | [] => Some l
  | e :: es' =>
      match step l e with
      | Some l' => exec l' es'
      | None => None
      end
  end.

Definition in_flight (l : Limiter) : nat := length (holders l).

(** What every reachable limiter satisfies: each of the [K] permits is
    free or held by exactly one invocation, and nobody both holds and
    waits. *)
Definition accounted (K : nat) (l : Limiter) : Prop :=
  capacity l = K ∧ available l + in_flight l = K ∧
  NoDup (holders l ++ waiters l).

End ConcurrencyLimiter.

(** * Concrete instances

    A client whose world is the list of frames it has sent, and a small
    upload, on which the statements below are exercised. *)

Module Recording.

Definition source_name (src : byte_source) : string :=
  match src with
  | Path p => p
  | BinaryIO n => n
  end.

Definition do_save_file (src : option byte_source) (w : list string)
  : (string + option string) * list string :=
  (inr (source_name <$> src), w ++ ["save_file"%string]).

Definition do_invoke (req : UploadProfilePhoto (option string)) (w : list string)
  : (string + bool) * list string :=
  (inr true, w ++ ["invoke"%string]).

Definition py_bool (r : bool) : string + bool := inr r.

Definition new_photo : option byte_source := Some (Path "new_photo.jpg").

Definition new_video : option byte_source := Some (Path "new_video.mp4").

(** [set_profile_photo(photo="new_photo.jpg", emoji=5, emoji_background=0xFF0000)]. *)
Definition with_emoji : prog (option string) bool string bool :=
  set_profile_photo py_bool new_photo (Some 5%Z) (BgInt 0xFF0000%Z) None None.

Definition with_emoji_request : UploadProfilePhoto (option string) :=
  {| fallback := None;
     file := Some "new_photo.jpg"%string;
     video_emoji_markup :=
       Some {| emoji_id := 5%Z; background_colors := [0xFF0000%Z] |};
     video := None |}.

(** [set_profile_photo(photo="new_photo.jpg", emoji=0, emoji_background=0xFF0000,
    video="new_video.mp4", is_public=True)]. *)
Definition with_zero_emoji_request : UploadProfilePhoto (option string) :=
  {| fallback := Some true;
     file := Some "new_photo.jpg"%string;
     video_emoji_markup := None;
     video := Some "new_video.mp4"%string |}.

End Recording.

Module SmallUpload.

Import UploadSession.

Definition table (size : option N) (hint : N) : N := 4%N.

Definition policy : RetryPolicy :=
  {| max_attempts := 3;
     retryable := fun c => match c with
                           | LinkDown | TimedOut => true
                           | _ => false
                           end |}.

(** Ten bytes, declared as ten. *)
Definition source : ByteSource :=
  {| size := Some 10%N; name := "ten"; bytes := repeat Byte.x00 10 |}.

(** Part 1 fails twice with [LinkDown], then is acknowledged. *)
Definition send (p : FilePart) (attempt : nat) : SendResult :=
  if ((fp_part_index p =? 1)%N && (attempt <? 2)%nat)%bool
  then Failed LinkDown
  else Acked.

(** Part 1 is never acknowledged. *)
Definition send_lossy (p : FilePart) (attempt : nat) : SendResult :=
  if (fp_part_index p =? 1)%N then Failed LinkDown else Acked.

(** A session of three parts in which part 1 is acknowledged. *)
Definition one_acknowledged : UploadState :=
  {| file_id := 7%N; acknowledged := {[ 1%N ]};
     total_parts := Some 3%N; is_big := false |}.

End SmallUpload.

Module TwoPermits.

Import ConcurrencyLimiter.

(** Three callers on two permits; the first holder fails, and the waiting
    caller gets its permit. *)
Definition trace : list Event :=
  [Acquire 1; Acquire 2; Acquire 3; Release 1 Failure].

Definition after_trace : Limiter :=
  {| capacity := 2; available := 0; holders := [2; 3]; waiters := [] |}.

End TwoPermits.

Module Flaky.

(** A client on which helper calls can fail: [save_file] raises for the
    path ["missing.jpg"], and [invoke] raises for a request that carries
    neither a file, nor a video, nor a markup. *)
Definition do_save_file (src : option byte_source) (w : list string)
  : (string + option string) * list string :=
  match src with
  | Some (Path p) =>
      if String.eqb p "missing.jpg"
      then (inl "FileNotFoundError"%string, w)
      else (inr (Some p), w ++ ["save_file"%string])
  | Some (BinaryIO n) => (inr (Some n), w ++ ["save_file"%string])
  | None => (inr None, w)
  end.

Definition do_invoke (req : UploadProfilePhoto (option string)) (w : list string)
  : (string + bool) * list string :=
  match file req, video req, video_emoji_markup req with
  | None, None, None => (inl "BadRequest"%string, w ++ ["invoke"%string])
  | _, _, _ => (inr true, w ++ ["invoke"%string])
  end.

Definition missing_photo : option byte_source := Some (Path "missing.jpg").

(** Responses whose truth test raises: here [bool] raises on the
    response [false]. *)
Definition py_bool (r : bool) : string + bool :=
  if r then inr true else inl "TypeError"%string.

Definition do_invoke_false (req : UploadProfilePhoto (option string))
    (w : list string) : (string + bool) * list string :=
  (inr false, w ++ ["invoke"%string]).

End Flaky.

(** * Properties of [set_profile_photo] *)

Section ClientFacts.

Context {SavedFile Response Exn World : Type}.
Variable py_bool : Response -> Exn + bool.
Variable do_save_file : option byte_source -> World -> (Exn + SavedFile) * World.
Variable do_invoke : UploadProfilePhoto SavedFile -> World -> (Exn + Response) * World.

Variables (photo : option byte_source) (emoji : option Z)
  (emoji_background : background) (video : option byte_source)
  (is_public : option bool).

Abbreviation exec_method w :=
  (run do_save_file do_invoke
     (set_profile_photo py_bool photo emoji emoji_background video is_public)
     w []).

Abbreviation request f v :=
  (Build_UploadProfilePhoto SavedFile is_public f
     (emoji_markup emoji emoji_background) v).

(** Membership in a call list that has been computed. *)
Ltac in_calls H :=
  rewrite ?elem_of_cons, ?elem_of_nil in H;
  repeat (destruct H as [H | H]); try contradiction; subst; auto.

(** The four ways a call can go: either helper call raises, [invoke]
    raises, or all three return and the outcome is that of [bool] on the
    response. *)
Lemma set_profile_photo_cases (w : World) :
  (∃ e w1, do_save_file photo w = (inl e, w1) ∧
     exec_method w = {| result := inl e; world := w1;
                        calls := [CSaveFile photo] |}) ∨
  (∃ f w1 e w2, do_save_file photo w = (inr f, w1) ∧
     do_save_file video w1 = (inl e, w2) ∧
     exec_method w = {| result := inl e; world := w2;
                        calls := [CSaveFile photo; CSaveFile video] |}) ∨
  (∃ f w1 v w2 e w3, do_save_file photo w = (inr f, w1) ∧
     do_save_file video w1 = (inr v, w2) ∧
     do_invoke (request f v) w2 = (inl e, w3) ∧
     exec_method w = {| result := inl e; world := w3;
                        calls := [CSaveFile photo; CSaveFile video;
                                  CInvoke (request f v)] |}) ∨
  (∃ f w1 v w2 r w3, do_save_file photo w = (inr f, w1) ∧
     do_save_file video w1 = (inr v, w2) ∧
     do_invoke (request f v) w2 = (inr r, w3) ∧
     exec_method w = {| result := py_bool r; world := w3;
                        calls := [CSaveFile photo; CSaveFile video;
                                  CInvoke (request f v)] |}).
Proof.
  unfold set_profile_photo; cbn.
  destruct (do_save_file photo w) as [[e|f] w1] eqn:Hp.
  { left. by exists e, w1. }
  cbn. destruct (do_save_file video w1) as [[e|v] w2] eqn:Hv.
  { right; left. by exists f, w1, e, w2. }
  cbn. destruct (do_invoke (request f v) w2) as [[e|r] w3] eqn:Hi.
  - right; right; left. exists f, w1, v, w2, e, w3. by rewrite Hi.
  - right; right; right. exists f, w1, v, w2, r, w3. rewrite Hi.
    do 3 (split; [done|]). by destruct (py_bool r).
Qed.

(** Whatever the helpers preserve, every program over them preserves:
    a program of this type has no other way to act on the world. *)
Lemma run_preserves {A : Type} (I : World -> Prop)
    (p : prog SavedFile Response Exn A) :
  (∀ s w, I w → I (do_save_file s w).2) →
  (∀ r w, I w → I (do_invoke r w).2) →
  ∀ w log, I w → I (world (run do_save_file do_invoke p w log)).
Proof.
  intros Hs Hi. induction p as [a | e | src k IH | req k IH];
    intros w log Hw; cbn.
  - exact Hw.
  - exact Hw.
  - specialize (Hs src w Hw). destruct (do_save_file src w) as [[e|f] w']; cbn in *; auto.
  - specialize (Hi req w Hw). destruct (do_invoke req w) as [[e|r] w']; cbn in *; auto.
Qed.

(** Every request that reaches [invoke] is the one built from the
    arguments and two saved files. *)
Lemma invoked_request_fields
    (w : World) (req : UploadProfilePhoto SavedFile) :
  req ∈ invoked (calls (exec_method w)) →
  fallback req = is_public ∧
  video_emoji_markup req = emoji_markup emoji emoji_background.
Proof.
  intros Hin.
  destruct (set_profile_photo_cases w) as
    [(e' & w1 & _ & Hr) | [(f & w1 & e' & w2 & _ & _ & Hr) |
     [(f & w1 & v & w2 & e' & w3 & _ & _ & _ & Hr) |
      (f & w1 & v & w2 & r & w3 & _ & _ & _ & Hr)]]];
    rewrite Hr in Hin; cbn in Hin.
  - in_calls Hin.
  - in_calls Hin.
  - by apply list_elem_of_singleton in Hin as ->.
  - by apply list_elem_of_singleton in Hin as ->.
Qed.

(** C1. A call makes at most one [invoke], every [save_file] it makes is on
    [photo] or on [video], and when it returns, it has built exactly one
    [UploadProfilePhoto] request, awaited [save_file] (on [photo], then on
    [video]) and [invoke] on that request, and its value is [bool] of what
    that [invoke] returned. *)
Theorem set_profile_photo_returns_bool_of_invoke (w : World) :
  (length (invoked (calls (exec_method w))) ≤ 1)%nat ∧
  (∀ src, src ∈ saved (calls (exec_method w)) → src = photo ∨ src = video) ∧
  (∀ b, result (exec_method w) = inr b →
     ∃ f v r w2,
       calls (exec_method w) =
         [CSaveFile photo; CSaveFile video; CInvoke (request f v)] ∧
       do_invoke (request f v) w2 = (inr r, world (exec_method w)) ∧
       py_bool r = inr b).
Proof.
  destruct (set_profile_photo_cases w) as
    [(e & w1 & _ & ->) | [(f & w1 & e & w2 & _ & _ & ->) |
     [(f & w1 & v & w2 & e & w3 & _ & _ & _ & ->) |
      (f & w1 & v & w2 & r & w3 & _ & _ & Hi & ->)]]]; cbn.
  - split; [lia|]. split; [|discriminate]. intros src Hin. in_calls Hin.
  - split; [lia|]. split; [|discriminate]. intros src Hin. in_calls Hin.
  - split; [lia|]. split; [|discriminate]. intros src Hin. in_calls Hin.
  - split; [lia|]. split; [intros src Hin; in_calls Hin|].
    intros b Hb. by exists f, v, r, w2.
Qed.

(** C2. With a truthy [emoji], the request handed to [invoke] carries a
    markup whose [background_colors] is a list: [[c]] for an int [c],
    [[0xFFFFFF]] for [None], and the list itself for a list. *)
Theorem set_profile_photo_background_colors_normalized
    (e : Z) (w : World) (req : UploadProfilePhoto SavedFile) :
  emoji = Some e → e ≠ 0%Z →
  req ∈ invoked (calls (exec_method w)) →
  video_emoji_markup req =
    Some {| emoji_id := e;
            background_colors :=
              match emoji_background with
              | BgInt c => [c]
              | BgNone => [0xFFFFFF%Z]
              | BgList cs => cs
              end |}.
Proof.
  intros He Hnz Hin.
  assert (Hm : emoji_markup emoji emoji_background =
    Some {| emoji_id := e;
            background_colors :=
              match emoji_background with
              | BgInt c => [c]
              | BgNone => [0xFFFFFF%Z]
              | BgList cs => cs
              end |}).
  { rewrite He. unfold emoji_markup, truthy.
    destruct (Z.eqb_spec e 0) as [?|_]; [done|].
    by destruct emoji_background. }
  destruct (set_profile_photo_cases w) as
    [(e' & w1 & _ & Hr) | [(f & w1 & e' & w2 & _ & _ & Hr) |
     [(f & w1 & v & w2 & e' & w3 & _ & _ & _ & Hr) |
      (f & w1 & v & w2 & r & w3 & _ & _ & _ & Hr)]]];
    rewrite Hr in Hin; cbn in Hin.
  - in_calls Hin.
  - in_calls Hin.
  - apply list_elem_of_singleton in Hin as ->. exact Hm.
  - apply list_elem_of_singleton in Hin as ->. exact Hm.
Qed.


(** C9. With a falsy [emoji] ([None] or [0]) the request's
    [video_emoji_markup] is [None] whatever [emoji_background] is, and
    the method is the same program as with [emoji = None] and any other
    [emoji_background]. *)
Theorem set_profile_photo_falsy_emoji_no_markup :
  emoji = None ∨ emoji = Some 0%Z →
  emoji_markup emoji emoji_background = None ∧
  (∀ w req, req ∈ invoked (calls (exec_method w)) →
     video_emoji_markup req = None) ∧
  (∀ bg',
     set_profile_photo (SavedFile := SavedFile) py_bool
       photo emoji emoji_background video is_public =
     set_profile_photo py_bool photo None bg' video is_public).
Proof.
  intros He.
  assert (Hm : emoji_markup emoji emoji_background = None)
    by (destruct He as [-> | ->]; reflexivity).
  split; [exact Hm|]. split.
  - intros w req Hin.
    destruct (invoked_request_fields w req Hin) as [_ ->].
    exact Hm.
  - intros bg'. destruct He as [-> | ->]; reflexivity.
Qed.

(** C10. No validation of [photo] and [video]: whatever the two are, the
    first call is [save_file(photo)]; once it returns, the next is
    [save_file(video)]; once that returns, [invoke] is called on a
    request holding both results; and an exception of the method is an
    exception of one of these three calls or of [bool] on the response. *)
Theorem set_profile_photo_no_validation (w : World) :
  (∃ rest, calls (exec_method w) = CSaveFile photo :: rest) ∧
  (∀ f w1, do_save_file photo w = (inr f, w1) →
     ∃ rest, calls (exec_method w) = CSaveFile photo :: CSaveFile video :: rest) ∧
  (∀ f w1 v w2, do_save_file photo w = (inr f, w1) →
     do_save_file video w1 = (inr v, w2) →
     calls (exec_method w) =
       [CSaveFile photo; CSaveFile video; CInvoke (request f v)]) ∧
  (∀ e, result (exec_method w) = inl e →
     (do_save_file photo w).1 = inl e ∨
     (∃ f w1, do_save_file photo w = (inr f, w1) ∧
        ((do_save_file video w1).1 = inl e ∨
         ∃ v w2, do_save_file video w1 = (inr v, w2) ∧
           ((do_invoke (request f v) w2).1 = inl e ∨
            ∃ r w3, do_invoke (request f v) w2 = (inr r, w3) ∧
              py_bool r = inl e)))).
Proof.
  destruct (set_profile_photo_cases w) as
    [(e' & w1 & Hp & Hr) | [(f & w1 & e' & w2 & Hp & Hv & Hr) |
     [(f & w1 & v & w2 & e' & w3 & Hp & Hv & Hi & Hr) |
      (f & w1 & v & w2 & r & w3 & Hp & Hv & Hi & Hr)]]];
    rewrite Hr; cbn; rewrite Hp; cbn.
  - split; [eauto|]. split; [discriminate|]. split; [discriminate|].
    intros e [= <-]. by left.
  - split; [eauto|]. split; [eauto|]. split.
    + intros ???? [= <- <-]. rewrite Hv. discriminate.
    + intros e [= <-]. right. exists f, w1. split; [done|]. left. by rewrite Hv.
  - split; [eauto|]. split; [eauto|]. split.
    + intros ???? [= <- <-]. rewrite Hv. by intros [= <- <-].
    + intros e [= <-]. right. exists f, w1. split; [done|]. right.
      exists v, w2. split; [done|]. left. by rewrite Hi.
  - split; [eauto|]. split; [eauto|]. split.
    + intros ???? [= <- <-]. rewrite Hv. by intros [= <- <-].
    + intros e He. right. exists f, w1. split; [done|]. right.
      exists v, w2. split; [done|]. right. by exists r, w3.
Qed.

End ClientFacts.

(** * Properties of the part planner *)

Section PartPlannerFacts.

Import PartPlanner.

Local Open Scope N_scope.

Lemma ceil_div_bounds (n ps : N) :
  0 < ps → n ≠ 0 → (ceil_div n ps - 1) * ps < n ∧ n <= ceil_div n ps * ps.
Proof.
  intros Hps Hn. unfold ceil_div.
  pose proof (N.div_mod (n + ps - 1) ps ltac:(lia)) as Hdm.
  pose proof (N.mod_lt (n + ps - 1) ps ltac:(lia)) as Hlt.
  set (q := (n + ps - 1) / ps) in *. set (r := (n + ps - 1) mod ps) in *.
  assert (Hq : 1 <= q) by (destruct (N.eq_dec q 0) as [Hz|]; [rewrite Hz in Hdm|]; lia).
  rewrite N.mul_sub_distr_r. lia.
Qed.

Lemma count_parts_pos (n ps : N) : 0 < ps → 0 < count_parts n ps.
Proof.
  intros Hps. unfold count_parts. destruct (N.eqb_spec n 0) as [->|Hn]; [lia|].
  pose proof (ceil_div_bounds n ps Hps Hn). nia.
Qed.

Lemma elem_of_ranges_of (r : PartRange) (n ps : N) :
  r ∈ ranges_of n ps ↔ ∃ i, i < count_parts n ps ∧ r = range_of n ps i.
Proof.
  unfold ranges_of. change (map ?f ?l) with (f <$> l).
  rewrite list_elem_of_fmap. split.
  - intros (i & -> & Hi). apply elem_of_seq in Hi.
    exists (N.of_nat i). split; [lia | done].
  - intros (i & Hi & ->). exists (N.to_nat i).
    rewrite N2Nat.id. split; [done|]. apply elem_of_seq. lia.
Qed.

Lemma covers_range_of (b n ps i : N) :
  0 < ps → covers b (range_of n ps i) ↔ b < n ∧ i = b / ps.
Proof.
  intros Hps. unfold covers, range_of; cbn.
  pose proof (N.div_mod b ps ltac:(lia)) as Hdm.
  pose proof (N.mod_lt b ps ltac:(lia)) as Hlt.
  set (q := b / ps) in *. set (r := b mod ps) in *. clearbody q r.
  split.
  - intros [Hlo Hhi].
    assert (Hn : b < n) by lia. split; [exact Hn|].
    assert (Hps' : b < i * ps + ps) by lia.
    assert (Hiq : i < q + 1) by nia.
    assert (Hqi : q < i + 1) by nia.
    lia.
  - intros [Hb ->]. split; [lia|].
    assert (q * ps + ps `min` (n - q * ps) = (q * ps + ps) `min` n) as -> by lia.
    lia.
Qed.

Lemma ranges_of_NoDup (n ps : N) : NoDup (ranges_of n ps).
Proof.
  unfold ranges_of. change (map ?f ?l) with (f <$> l).
  apply NoDup_fmap_2_strong; [|apply NoDup_seq].
  intros i j _ _ Heq. apply (f_equal part_index) in Heq. cbn in Heq. lia.
Qed.

Lemma ranges_of_length (n ps : N) :
  N.of_nat (length (ranges_of n ps)) = count_parts n ps.
Proof. unfold ranges_of. rewrite length_map, length_seq. lia. Qed.

(** C5. For a source of known size [n], the parts of [plan] partition
    [[0, n)]: every byte below [n] lies in the range of exactly one part,
    no range reaches [n] or beyond, and no part occurs twice. The part
    count is [ceil(n / part_size)], the least [k] with
    [n <= k * part_size], and for [n = 0] the plan is one empty part. *)
Theorem plan_partitions_source
    (table : option N → N → N) (limit n hint : N) :
  0 < part_size (plan table limit (Some n) hint) →
  ∃ rs count,
    ranges (plan table limit (Some n) hint) = Some rs ∧
    part_count (plan table limit (Some n) hint) = Some count ∧
    count = N.of_nat (length rs) ∧
    (n ≠ 0 →
       count = ceil_div n (part_size (plan table limit (Some n) hint)) ∧
       (count - 1) * part_size (plan table limit (Some n) hint) < n ∧
       n <= count * part_size (plan table limit (Some n) hint)) ∧
    (n = 0 → rs = [{| part_index := 0; offset := 0; len := 0 |}]) ∧
    NoDup rs ∧
    (∀ b, b < n →
       ∃ r, r ∈ rs ∧ covers b r ∧ ∀ r', r' ∈ rs → covers b r' → r' = r) ∧
    (∀ b r, r ∈ rs → covers b r → b < n).
Proof.
  unfold plan; cbn [part_size part_count ranges].
  generalize (choose_part_size table limit (Some n) hint) as ps. intros ps Hps.
  exists (ranges_of n ps), (count_parts n ps).
  split; [done|]. split; [done|]. split; [by rewrite ranges_of_length|].
  split; [|split; [|split; [|split]]].
  - intros Hn. unfold count_parts. destruct (N.eqb_spec n 0) as [?|_]; [done|].
    split; [done|]. by apply ceil_div_bounds.
  - intros ->. unfold ranges_of, count_parts, range_of.
    change (seq 0 (N.to_nat (if 0 =? 0 then 1 else ceil_div 0 ps)))
      with [0%nat].
    unfold map. change (N.of_nat 0) with 0.
    by rewrite N.mul_0_l, N.sub_0_r, N.min_0_r.
  - apply ranges_of_NoDup.
  - intros b Hb. exists (range_of n ps (b / ps)).
    assert (Hc : covers b (range_of n ps (b / ps)))
      by (by apply covers_range_of).
    split; [|split; [exact Hc|]].
    + apply elem_of_ranges_of. exists (b / ps). split; [|done].
      unfold count_parts. destruct (N.eqb_spec n 0) as [?|Hn]; [lia|].
      pose proof (ceil_div_bounds n ps Hps Hn) as [_ Hup].
      pose proof (N.div_mod b ps ltac:(lia)) as Hdm.
      destruct (N.lt_ge_cases (b / ps) (ceil_div n ps)) as [Hlt | Hge]; [done|].
      pose proof (N.mul_le_mono_r _ _ ps Hge) as Hmul.
      set (q := b / ps) in *. set (r := b mod ps) in *. clearbody q r.
      generalize dependent (ceil_div n ps). intros c Hup Hge Hmul. lia.
    + intros r' Hin Hc'. apply elem_of_ranges_of in Hin as (j & _ & ->).
      apply covers_range_of in Hc' as [_ ->]; done.
  - intros b r Hin Hc. apply elem_of_ranges_of in Hin as (j & _ & ->).
    by apply covers_range_of in Hc as [? _].
Qed.

End PartPlannerFacts.

(** * Properties of the upload session *)

Section AcknowledgementFacts.

Import UploadSession.

Lemma acknowledge_twice (i : N) (st : UploadState) :
  acknowledge i (acknowledge i st) = acknowledge i st.
Proof.
  unfold acknowledge; cbn. f_equal. set_solver.
Qed.

Lemma acknowledge_known (i : N) (st : UploadState) :
  i ∈ acknowledged st → acknowledge i st = st.
Proof.
  intros Hi. destruct st as [fid ack tot big]; unfold acknowledge; cbn in *.
  f_equal. set_solver.
Qed.

(** C6. Acknowledging a part index a second time changes nothing: the
    state, its acknowledgement set and its completion status are those
    after the first acknowledgement, and acknowledging an index that is
    already acknowledged leaves the state as it is. *)
Theorem acknowledge_idempotent (t : option N) (st : UploadState) (i : N) :
  acknowledge i (acknowledge i st) = acknowledge i st ∧
  acknowledged (acknowledge i (acknowledge i st)) =
    acknowledged (acknowledge i st) ∧
  is_complete t (acknowledge i (acknowledge i st)) =
    is_complete t (acknowledge i st) ∧
  (i ∈ acknowledged st →
     acknowledge i st = st ∧
     is_complete t (acknowledge i st) = is_complete t st).
Proof.
  rewrite acknowledge_twice. do 3 (split; [done|]).
  intros Hi. by rewrite acknowledge_known.
Qed.

End AcknowledgementFacts.

Section UploadSessionFacts.

Import PartPlanner UploadSession.

Variable part_size_table : option N → N → N.
Variable part_count_limit : N.
Variable chunk_size_hint : N.
Variable policy : RetryPolicy.
Variable send : FilePart → nat → SendResult.

Abbreviation parts fid src :=
  (parts_of part_size_table part_count_limit chunk_size_hint fid src).
Abbreviation the_layout src :=
  (layout part_size_table part_count_limit chunk_size_hint src).
Abbreviation terminal src :=
  (terminal_index part_size_table part_count_limit chunk_size_hint src).
Abbreviation the_upload fid src :=
  (upload part_size_table part_count_limit chunk_size_hint policy send fid src).
Abbreviation the_run fid src :=
  (run_upload part_size_table part_count_limit chunk_size_hint policy send fid src).
Abbreviation the_start fid src :=
  (start part_size_table part_count_limit chunk_size_hint fid src).
Abbreviation succeeds p := (succeeds_within_budget policy send p).
Abbreviation exhausts p := (exhausts_retries policy send p).
Abbreviation try_part p r a := (attempt_part policy send p r a).
Abbreviation submitted p := (submit policy send p).
Abbreviation send_all st ps := (upload_parts policy send st ps).
Abbreviation the_budget := (budget policy).

Lemma attempt_part_acked (p : FilePart) (r a a' : nat) :
  try_part p r a = inr a' → (a ≤ a' ≤ a + r)%nat ∧ send p a' = Acked.
Proof.
  revert a. induction r as [|r IH]; intros a; cbn;
    destruct (send p a) as [|c] eqn:Hs.
  - intros [= <-]. split; [lia | done].
  - by destruct (retryable policy c).
  - intros [= <-]. split; [lia | done].
  - destruct (retryable policy c); [|done].
    intros H. apply IH in H as [? ?]. split; [lia | done].
Qed.

Lemma attempt_part_succeeds (p : FilePart) (k r a : nat) :
  (k ≤ r)%nat → send p (a + k) = Acked →
  (∀ j, (j < k)%nat → ∃ c, send p (a + j) = Failed c ∧ retryable policy c = true) →
  try_part p r a = inr (a + k)%nat.
Proof.
  revert r a. induction k as [|k IH]; intros r a Hk Hack Hfail.
  - rewrite Nat.add_0_r in *. destruct r; cbn; by rewrite Hack.
  - destruct r as [|r]; [lia|].
    destruct (Hfail 0%nat ltac:(lia)) as (c & Hc & Hr).
    rewrite Nat.add_0_r in Hc. cbn. rewrite Hc, Hr.
    rewrite Nat.add_succ_r. apply (IH r (S a)); [lia | |].
    + by rewrite Nat.add_succ_r in Hack.
    + intros j Hj. destruct (Hfail (S j) ltac:(lia)) as (c' & Hc' & Hr').
      rewrite Nat.add_succ_r in Hc'. by exists c'.
Qed.

Lemma attempt_part_exhausted (p : FilePart) (r a : nat) :
  (∀ j, (j ≤ r)%nat → ∃ c, send p (a + j) = Failed c ∧ retryable policy c = true) →
  ∃ c, try_part p r a = inl c.
Proof.
  revert a. induction r as [|r IH]; intros a Hfail;
    destruct (Hfail 0%nat ltac:(lia)) as (c & Hc & Hr);
    rewrite Nat.add_0_r in Hc; cbn; rewrite Hc, Hr.
  - by exists c.
  - apply IH. intros j Hj. destruct (Hfail (S j) ltac:(lia)) as (c' & Hc' & Hr').
    rewrite Nat.add_succ_r in Hc'. by exists c'.
Qed.

Lemma submit_acked (p : FilePart) (a : nat) :
  submitted p = inr a → (a < the_budget)%nat ∧ send p a = Acked.
Proof.
  intros H. apply attempt_part_acked in H as [? ?]. unfold budget.
  split; [lia | done].
Qed.

Lemma succeeds_submit (p : FilePart) : succeeds p → ∃ a, submitted p = inr a.
Proof.
  intros (a & Ha & Hack & Hfail). exists a. unfold budget in Ha.
  apply (attempt_part_succeeds p a _ 0%nat); [lia | done | done].
Qed.

Lemma exhausts_submit (p : FilePart) : exhausts p → ∃ c, submitted p = inl c.
Proof.
  intros H. apply attempt_part_exhausted. intros j Hj. apply H.
  unfold budget. cbn. lia.
Qed.

Lemma upload_parts_done (st st' : UploadState) (ps : list FilePart) :
  send_all st ps = inr st' →
  file_id st' = file_id st ∧ total_parts st' = total_parts st ∧
  acknowledged st' = list_to_set (fp_part_index <$> ps) ∪ acknowledged st ∧
  ∀ p, p ∈ ps → ∃ a, submitted p = inr a.
Proof.
  revert st. induction ps as [|p ps IH]; intros st; cbn.
  - intros [= <-]. repeat split; [set_solver|]. intros p Hp.
    by apply elem_of_nil in Hp.
  - destruct (submit policy send p) as [c|a] eqn:Hsub; [done|].
    intros H. apply IH in H as (Hf & Ht & Ha & Hall). cbn in *.
    repeat split; [done | done | rewrite Ha; set_solver |].
    intros q Hq. apply elem_of_cons in Hq as [-> | Hq]; eauto.
Qed.

Lemma upload_parts_all (st : UploadState) (ps : list FilePart) :
  (∀ p, p ∈ ps → ∃ a, submitted p = inr a) → ∃ st', send_all st ps = inr st'.
Proof.
  revert st. induction ps as [|p ps IH]; intros st Hall; cbn.
  - by exists st.
  - destruct (Hall p ltac:(by left)) as (a & ->).
    apply IH. intros q Hq. apply Hall. by right.
Qed.

Lemma upload_parts_first_failure
    (st : UploadState) (pre post : list FilePart) (p : FilePart) (c : Cause) :
  (∀ q, q ∈ pre → ∃ a, submitted q = inr a) → submitted p = inl c →
  send_all st (pre ++ p :: post) = inl (UploadFailed (fp_part_index p) c).
Proof.
  revert st. induction pre as [|q pre IH]; intros st Hpre Hp; cbn.
  - by rewrite Hp.
  - destruct (Hpre q ltac:(by left)) as (a & ->).
    apply IH; [|done]. intros q' Hq'. apply Hpre. by right.
Qed.

(** The parts of an upload carry the indices [0, 1, ..., k - 1]; [k] is
    the planned count for a known size, and ends with the short part
    otherwise. *)
Lemma parts_indices (fid : N) (src : ByteSource) :
  ∃ k : nat,
    fp_part_index <$> parts fid src = N.of_nat <$> seq 0 k ∧
    match size src with
    | Some _ => total_parts (the_start fid src) = Some (N.of_nat k)
    | None => total_parts (the_start fid src) = None ∧
              terminal src = Some (N.of_nat (pred k)) ∧ (0 < k)%nat
    end.
Proof.
  unfold parts_of, start, terminal_index, layout, plan.
  destruct (size src) as [n|]; cbn [ranges part_count part_size].
  - set (ps := choose_part_size _ _ _ _).
    exists (N.to_nat (count_parts n ps)). split; [|by rewrite N2Nat.id].
    unfold ranges_of.
    change (fp_part_index <$> ?l) with (map fp_part_index l).
    change (N.of_nat <$> ?l) with (map N.of_nat l).
    rewrite !map_map. by apply map_ext.
  - set (ps := choose_part_size _ _ _ _).
    exists (S (N.to_nat (actual_size src / ps))). split.
    + change (fp_part_index <$> ?l) with (map fp_part_index l).
      change (N.of_nat <$> ?l) with (map N.of_nat l).
      rewrite map_map. by apply map_ext.
    + split; [done|]. split; [|apply Nat.lt_0_succ].
      cbn [pred]. by rewrite N2Nat.id.
Qed.

Lemma upload_complete (fid : N) (src : ByteSource) (st : UploadState) :
  send_all (the_start fid src) (parts fid src) = inr st →
  is_complete (terminal src) st = true.
Proof.
  intros H. apply upload_parts_done in H as (_ & Ht & Ha & _).
  destruct (parts_indices fid src) as (k & Hk & Hsz).
  rewrite Hk in Ha. unfold is_complete. rewrite Ht.
  assert (Hin : ∀ i, (i < k)%nat → N.of_nat i ∈ acknowledged st).
  { intros i Hi. rewrite Ha. apply elem_of_union_l, elem_of_list_to_set.
    apply list_elem_of_fmap_2, elem_of_seq. lia. }
  destruct (size src) as [n|].
  - rewrite Hsz, Nat2N.id. apply forallb_forall. intros i Hi.
    apply bool_decide_eq_true, Hin. apply in_seq in Hi. lia.
  - destruct Hsz as (-> & -> & Hpos). apply bool_decide_eq_true, Hin. lia.
Qed.

(** C7. [upload] returns the session's [file_id] only when the upload is
    complete and every part has a positive acknowledgement within the
    retry budget; it does return it when every part succeeds within the
    budget; and when a part exhausts its retries the result is
    [UploadFailed] with the index of that part, never a success. *)
Theorem upload_never_reports_partial_success (fid : N) (src : ByteSource) :
  (∀ fid', the_upload fid src = inr fid' →
     fid' = fid ∧
     ∃ st, the_run fid src = inr st ∧
       is_complete (terminal src) st = true ∧
       ∀ p, p ∈ parts fid src →
         fp_part_index p ∈ acknowledged st ∧
         ∃ a, (a < the_budget)%nat ∧ send p a = Acked) ∧
  (size_consistent src = true →
     (∀ p, p ∈ parts fid src → succeeds p) →
     the_upload fid src = inr fid) ∧
  (size_consistent src = true →
     ∀ pre p post, parts fid src = pre ++ p :: post →
       (∀ q, q ∈ pre → succeeds q) → exhausts p →
       ∃ c, the_upload fid src = inl (UploadFailed (fp_part_index p) c)) ∧
  (size_consistent src = true →
     ∀ p, p ∈ parts fid src → exhausts p →
       ∃ q c, q ∈ parts fid src ∧ submitted q = inl c ∧
         the_upload fid src = inl (UploadFailed (fp_part_index q) c)).
Proof.
  unfold upload, run_upload. split; [|split; [|split]].
  - intros fid'. destruct (size_consistent src); [|done].
    destruct (upload_parts _ _ _ _) as [e|st] eqn:Hup; [done|].
    intros [= <-]. pose proof (upload_complete _ _ _ Hup) as Hc.
    apply upload_parts_done in Hup as (Hf & _ & Ha & Hall).
    split; [done|]. exists st. split; [done|]. split; [done|].
    intros p Hp. split.
    + rewrite Ha. apply elem_of_union_l, elem_of_list_to_set.
      by apply list_elem_of_fmap_2.
    + destruct (Hall p Hp) as (a & Hsub). exists a. by apply submit_acked.
  - intros -> Hall.
    destruct (upload_parts_all (the_start fid src) (parts fid src)) as (st & Hup).
    { intros p Hp. by apply succeeds_submit, Hall. }
    rewrite Hup. by apply upload_parts_done in Hup as (-> & _).
  - intros -> pre p post Hparts Hpre Hp.
    destruct (exhausts_submit p Hp) as (c & Hc). exists c.
    rewrite Hparts, (upload_parts_first_failure _ pre post p c); [done| |done].
    intros q Hq. by apply succeeds_submit, Hpre.
  - intros -> p Hp Hex. destruct (exhausts_submit p Hex) as (c & Hc).
    destruct (upload_parts _ _ _ _) as [e|st] eqn:Hup.
    + clear p Hp Hex c Hc. revert Hup. generalize (the_start fid src).
      induction (parts fid src) as [|q ps IH]; intros st; cbn; [done|].
      destruct (submit policy send q) as [c|a] eqn:Hq.
      * intros [= <-]. exists q, c. split; [by left | done].
      * intros H. destruct (IH _ H) as (q' & c & Hin & Hs & ->).
        exists q', c. split; [by right | done].
    + apply upload_parts_done in Hup as (_ & _ & _ & Hall).
      destruct (Hall p Hp) as (a & Ha). congruence.
Qed.

End UploadSessionFacts.

(** * Properties of the concurrency limiter *)

Section ConcurrencyLimiterFacts.

Import ConcurrencyLimiter.

Lemma remove_not_elem (t : nat) (l : list nat) : t ∉ remove t l.
Proof. unfold remove. rewrite list_elem_of_filter. tauto. Qed.

Lemma elem_of_remove (t x : nat) (l : list nat) : x ∈ remove t l → x ∈ l.
Proof. unfold remove. rewrite list_elem_of_filter. tauto. Qed.

Lemma remove_absent (t : nat) (l : list nat) : t ∉ l → remove t l = l.
Proof.
  unfold remove. induction l as [|x l IH]; intros Hin; [done|].
  apply not_elem_of_cons in Hin as [Hne Hin].
  rewrite filter_cons_True by done. by rewrite IH.
Qed.

Lemma remove_length (t : nat) (l : list nat) :
  NoDup l → t ∈ l → S (length (remove t l)) = length l.
Proof.
  unfold remove. induction l as [|x l IH]; intros Hnd Hin.
  - by apply elem_of_nil in Hin.
  - apply NoDup_cons in Hnd as [Hx Hnd]. rewrite filter_cons.
    destruct (decide (x ≠ t)) as [Hne | Heq].
    + cbn. f_equal. apply IH; [done|].
      apply elem_of_cons in Hin as [-> | Hin]; done.
    + assert (x = t) as -> by (destruct (decide (x = t)); tauto).
      cbn. f_equal. f_equal. exact (remove_absent t l Hx).
Qed.

Lemma remove_NoDup (t : nat) (l : list nat) : NoDup l → NoDup (remove t l).
Proof. apply NoDup_filter. Qed.

Lemma step_accounted (K : nat) (l l' : Limiter) (e : Event) :
  accounted K l → step l e = Some l' → accounted K l'.
Proof.
  intros (Hc & Hsum & Hnd) Hstep. unfold in_flight in *.
  apply NoDup_app in Hnd as (Hh & Hdisj & Hw).
  destruct e as [t | t how]; cbn in Hstep.
  - case_bool_decide as Hin; [done|].
    destruct (available l) as [|n] eqn:Hav; injection Hstep as <-;
      (split; [done|]); cbn; (split; [rewrite ?length_app; cbn; lia|]).
    + apply NoDup_app. split; [done|]. split.
      * intros x Hx Hx'. apply elem_of_app in Hx' as [Hx' | Hx'].
        -- by apply (Hdisj x).
        -- apply list_elem_of_singleton in Hx' as ->. tauto.
      * apply NoDup_app. split; [done|]. split; [|apply NoDup_singleton].
        intros x Hx Hx'. apply list_elem_of_singleton in Hx' as ->. tauto.
    + apply NoDup_app. split; [|split; [|done]].
      * apply NoDup_app. split; [done|]. split; [|apply NoDup_singleton].
        intros x Hx Hx'. apply list_elem_of_singleton in Hx' as ->. tauto.
      * intros x Hx Hx'. apply elem_of_app in Hx as [Hx | Hx].
        -- by apply (Hdisj x).
        -- apply list_elem_of_singleton in Hx as ->. tauto.
  - case_bool_decide as Hin; [|done].
    pose proof (remove_length t _ Hh Hin) as Hlen.
    destruct (waiters l) as [|w ws] eqn:Hws; injection Hstep as <-;
      (split; [done|]); cbn; (split; [rewrite ?length_app; cbn; lia|]).
    + rewrite app_nil_r. by apply remove_NoDup.
    + apply NoDup_cons in Hw as [Hw Hws']. apply NoDup_app.
      split; [|split; [|done]].
      * apply NoDup_app. split; [by apply remove_NoDup|].
        split; [|apply NoDup_singleton].
        intros x Hx Hx'. apply list_elem_of_singleton in Hx' as ->.
        apply elem_of_remove in Hx. apply (Hdisj w Hx). by left.
      * intros x Hx Hx'. apply elem_of_app in Hx as [Hx | Hx].
        -- apply elem_of_remove in Hx. apply (Hdisj x Hx). by right.
        -- apply list_elem_of_singleton in Hx as ->. done.
Qed.

Lemma exec_accounted (K : nat) (es : list Event) (l l' : Limiter) :
  accounted K l → exec l es = Some l' → accounted K l'.
Proof.
  revert l. induction es as [|e es IH]; intros l Hl; cbn.
  - by intros [= <-].
  - destruct (step l e) as [l1|] eqn:Hstep; [|done].
    apply IH. by apply (step_accounted K l l1 e).
Qed.

Lemma init_accounted (K : nat) : accounted K (init K).
Proof.
  unfold accounted, in_flight; cbn. split; [done|]. split; [lia|]. apply NoDup_nil_2.
Qed.

(** C8. In every state a limiter of capacity [K] can reach, at most [K]
    invocations hold a permit (are sent but unresolved), and the free and
    the held permits add up to [K]. A holder's scope can exit in any way
    (success, failure, expiry): the exit gives the permit back, free or
    handed to the longest waiter, and once no invocation is in flight all
    [K] permits are free again. *)
Theorem limiter_never_exceeds_capacity (K : nat) (es : list Event) (l : Limiter) :
  exec (init K) es = Some l →
  in_flight l ≤ K ∧
  available l + in_flight l = K ∧
  (∀ t how, t ∈ holders l →
     ∃ l', step l (Release t how) = Some l' ∧
       (t ∉ holders l') ∧ available l' + in_flight l' = K ∧
       in_flight l' ≤ K) ∧
  (holders l = [] → available l = K).
Proof.
  intros Hex. pose proof (exec_accounted K es _ _ (init_accounted K) Hex) as Hacc.
  pose proof Hacc as (Hc & Hsum & Hnd).
  split; [lia|]. split; [done|]. split.
  - intros t how Hin.
    destruct (step l (Release t how)) as [l'|] eqn:Hstep.
    + pose proof (step_accounted K l l' _ Hacc Hstep) as (_ & Hsum' & _).
      exists l'. split; [done|]. split; [|split; [done | lia]].
      cbn in Hstep. rewrite bool_decide_eq_true_2 in Hstep by done.
      apply NoDup_app in Hnd as (_ & Hdisj & _).
      destruct (waiters l) as [|w ws] eqn:Hws; injection Hstep as <-; cbn.
      * apply remove_not_elem.
      * intros Ht. apply elem_of_app in Ht as [Ht | Ht].
        -- by apply remove_not_elem in Ht.
        -- apply list_elem_of_singleton in Ht as ->.
           apply (Hdisj w Hin). by left.
    + cbn in Hstep. rewrite bool_decide_eq_true_2 in Hstep by done.
      by destruct (waiters l).
  - unfold in_flight in Hsum. intros Hh. rewrite Hh in Hsum. cbn in Hsum. lia.
Qed.

End ConcurrencyLimiterFacts.

(** * The statements at concrete inputs *)

Section Instances.

Import Recording.

(** Setting a photo on the recording client returns [True], after three
    helper calls. *)
Lemma set_profile_photo_returns_bool_of_invoke_witness :
  result (run do_save_file do_invoke
            (set_profile_photo py_bool new_photo None BgNone None None) [] [])
    = inr true ∧
  ∃ f v r w2,
    calls (run do_save_file do_invoke
             (set_profile_photo py_bool new_photo None BgNone None None) [] [])
      = [CSaveFile new_photo; CSaveFile None;
         CInvoke {| fallback := None; file := f;
                    video_emoji_markup := emoji_markup None BgNone;
                    video := v |}] ∧
    do_invoke {| fallback := None; file := f;
                 video_emoji_markup := emoji_markup None BgNone;
                 video := v |} w2
      = (inr r, world (run do_save_file do_invoke
                         (set_profile_photo py_bool new_photo None BgNone None None)
                         [] [])) ∧
    py_bool r = inr true.
Proof.
  split; [reflexivity|].
  apply (set_profile_photo_returns_bool_of_invoke py_bool do_save_file do_invoke
           new_photo None BgNone None None []).
  reflexivity.
Defined.

Lemma set_profile_photo_background_colors_normalized_witness :
  with_emoji_request ∈ invoked (calls (run do_save_file do_invoke with_emoji [] [])) ∧
  video_emoji_markup with_emoji_request =
    Some {| emoji_id := 5%Z; background_colors := [0xFF0000%Z] |}.
Proof.
  assert (Hin : with_emoji_request ∈
                invoked (calls (run do_save_file do_invoke with_emoji [] [])))
    by (vm_compute; left).
  split; [exact Hin|].
  apply (set_profile_photo_background_colors_normalized py_bool do_save_file
           do_invoke new_photo (Some 5%Z) (BgInt 0xFF0000%Z) None None 5%Z []
           with_emoji_request); [reflexivity | lia | exact Hin].
Defined.


Lemma set_profile_photo_falsy_emoji_no_markup_witness :
  emoji_markup (Some 0%Z) (BgInt 0xFF0000%Z) = None ∧
  (∀ w req,
     req ∈ invoked (calls (run do_save_file do_invoke
                             (set_profile_photo py_bool new_photo (Some 0%Z)
                                (BgInt 0xFF0000%Z) new_video (Some true)) w [])) →
     video_emoji_markup req = None) ∧
  (∀ bg',
     set_profile_photo (SavedFile := option string) py_bool new_photo (Some 0%Z)
       (BgInt 0xFF0000%Z) new_video (Some true) =
     set_profile_photo py_bool new_photo None bg' new_video (Some true)).
Proof.
  apply (set_profile_photo_falsy_emoji_no_markup py_bool do_save_file do_invoke
           new_photo (Some 0%Z) (BgInt 0xFF0000%Z) new_video (Some true)).
  right. reflexivity.
Defined.

(** With neither [photo] nor [video] the three calls are still made. *)
Lemma set_profile_photo_no_validation_witness :
  calls (run do_save_file do_invoke
           (set_profile_photo py_bool None None BgNone None None) [] []) =
    [CSaveFile None; CSaveFile None;
     CInvoke {| fallback := None; file := None;
                video_emoji_markup := emoji_markup None BgNone;
                video := None |}].
Proof.
  apply (proj1 (proj2 (proj2
           (set_profile_photo_no_validation py_bool do_save_file do_invoke
              None None BgNone None None [])))
           None ["save_file"%string] None
           ["save_file"%string; "save_file"%string]); reflexivity.
Defined.

End Instances.

Section CoreInstances.

Import PartPlanner UploadSession ConcurrencyLimiter.

Local Open Scope N_scope.

Example emoji_markup_default_background :
  emoji_markup (Some 5%Z) BgNone =
    Some {| emoji_id := 5%Z; background_colors := [16777215%Z] |}.
Proof. reflexivity. Qed.

Example ranges_of_ten_by_four :
  ranges_of 10 4 =
    [ {| part_index := 0; offset := 0; len := 4 |};
      {| part_index := 1; offset := 4; len := 4 |};
      {| part_index := 2; offset := 8; len := 2 |} ].
Proof. reflexivity. Qed.

Example ranges_of_empty_source :
  ranges_of 0 4 = [ {| part_index := 0; offset := 0; len := 0 |} ].
Proof. reflexivity. Qed.

(** Part 1 never acknowledged: three attempts, then the upload fails on
    part 1. *)
Example upload_lossy_fails :
  upload SmallUpload.table 100 0 SmallUpload.policy SmallUpload.send_lossy 7
    SmallUpload.source = inl (UploadFailed 1 LinkDown).
Proof. reflexivity. Qed.

(** The declared size disagrees with the bytes. *)
Example upload_size_mismatch :
  upload SmallUpload.table 100 0 SmallUpload.policy SmallUpload.send 7
    {| size := Some 11; name := "ten"; bytes := repeat Byte.x00 10 |}
    = inl SizeMismatch.
Proof. reflexivity. Qed.

(** Ten bytes in parts of four: three parts. *)
Lemma plan_partitions_source_witness :
  0 < part_size (plan SmallUpload.table 100 (Some 10) 0) ∧
  ∃ rs count,
    ranges (plan SmallUpload.table 100 (Some 10) 0) = Some rs ∧
    part_count (plan SmallUpload.table 100 (Some 10) 0) = Some count ∧
    count = N.of_nat (length rs) ∧
    (10 ≠ 0 →
       count = ceil_div 10 (part_size (plan SmallUpload.table 100 (Some 10) 0)) ∧
       (count - 1) * part_size (plan SmallUpload.table 100 (Some 10) 0) < 10 ∧
       10 <= count * part_size (plan SmallUpload.table 100 (Some 10) 0)) ∧
    (10 = 0 → rs = [{| part_index := 0; offset := 0; len := 0 |}]) ∧
    NoDup rs ∧
    (∀ b, b < 10 →
       ∃ r, r ∈ rs ∧ covers b r ∧ ∀ r', r' ∈ rs → covers b r' → r' = r) ∧
    (∀ b r, r ∈ rs → covers b r → b < 10).
Proof.
  split; [reflexivity|].
  apply (plan_partitions_source SmallUpload.table 100 10 0). reflexivity.
Defined.

Lemma acknowledge_idempotent_witness :
  1 ∈ acknowledged SmallUpload.one_acknowledged ∧
  acknowledge 1 SmallUpload.one_acknowledged = SmallUpload.one_acknowledged ∧
  is_complete None (acknowledge 1 SmallUpload.one_acknowledged) =
    is_complete None SmallUpload.one_acknowledged.
Proof.
  assert (Hin : 1 ∈ acknowledged SmallUpload.one_acknowledged)
    by (cbn [acknowledged SmallUpload.one_acknowledged];
        apply elem_of_singleton_2; reflexivity).
  split; [exact Hin|].
  exact (proj2 (proj2 (proj2
           (acknowledge_idempotent None SmallUpload.one_acknowledged 1))) Hin).
Defined.

(** With part 1 failing twice and three attempts allowed, the upload
    returns the session's file identifier, and it is complete. *)
Lemma upload_never_reports_partial_success_witness :
  upload SmallUpload.table 100 0 SmallUpload.policy SmallUpload.send 7
    SmallUpload.source = inr 7 ∧
  ∃ st,
    run_upload SmallUpload.table 100 0 SmallUpload.policy SmallUpload.send 7
      SmallUpload.source = inr st ∧
    is_complete (terminal_index SmallUpload.table 100 0 SmallUpload.source) st
      = true ∧
    ∀ p, p ∈ parts_of SmallUpload.table 100 0 7 SmallUpload.source →
      fp_part_index p ∈ acknowledged st ∧
      ∃ a, (a < budget SmallUpload.policy)%nat ∧ SmallUpload.send p a = Acked.
Proof.
  assert (Hup : upload SmallUpload.table 100 0 SmallUpload.policy
                  SmallUpload.send 7 SmallUpload.source = inr 7)
    by reflexivity.
  split; [exact Hup|].
  exact (proj2 (proj1
           (upload_never_reports_partial_success SmallUpload.table 100 0
              SmallUpload.policy SmallUpload.send 7 SmallUpload.source)
           7 Hup)).
Defined.

Lemma limiter_never_exceeds_capacity_witness :
  exec (init 2) TwoPermits.trace = Some TwoPermits.after_trace ∧
  (in_flight TwoPermits.after_trace ≤ 2)%nat ∧
  (available TwoPermits.after_trace + in_flight TwoPermits.after_trace = 2)%nat.
Proof.
  assert (Hex : exec (init 2) TwoPermits.trace = Some TwoPermits.after_trace)
    by reflexivity.
  split; [exact Hex|].
  pose proof (limiter_never_exceeds_capacity 2 TwoPermits.trace
                TwoPermits.after_trace Hex) as (Hle & Hsum & _).
  split; [exact Hle | exact Hsum].
Defined.

End CoreInstances.

(** * Further properties of [set_profile_photo] *)

Section ClientErrors.

Context {SavedFile Response Exn World : Type}.
Variable py_bool : Response -> Exn + bool.
Variable do_save_file : option byte_source -> World -> (Exn + SavedFile) * World.
Variable do_invoke : UploadProfilePhoto SavedFile -> World -> (Exn + Response) * World.

Variables (photo : option byte_source) (emoji : option Z)
  (emoji_background : background) (video : option byte_source)
  (is_public : option bool).

Abbreviation method_run w :=
  (run do_save_file do_invoke
     (set_profile_photo py_bool photo emoji emoji_background video is_public)
     w []).

Abbreviation built_request f v :=
  (Build_UploadProfilePhoto SavedFile is_public f
     (emoji_markup emoji emoji_background) v).

(** X1. When a [save_file] call of the method raises, the method raises the
    same exception and no request reaches [invoke]; when it is the call on
    [photo] that raises, [save_file(video)] is not attempted and the world
    is the one that call left. *)
Theorem failed_upload_sends_no_request (w : World) (e : Exn) :
  (do_save_file photo w).1 = inl e ∨
  (∃ f w1, do_save_file photo w = (inr f, w1) ∧
           (do_save_file video w1).1 = inl e) →
  result (method_run w) = inl e ∧
  invoked (calls (method_run w)) = [] ∧
  ((do_save_file photo w).1 = inl e →
     calls (method_run w) = [CSaveFile photo] ∧
     world (method_run w) = (do_save_file photo w).2).
Proof.
  intros Hfail.
  destruct (set_profile_photo_cases py_bool do_save_file do_invoke photo emoji
              emoji_background video is_public w) as
    [(e' & w1 & Hp & Hr) | [(f & w1 & e' & w2 & Hp & Hv & Hr) |
     [(f & w1 & v & w2 & e' & w3 & Hp & Hv & Hi & Hr) |
      (f & w1 & v & w2 & r & w3 & Hp & Hv & Hi & Hr)]]];
    rewrite Hr; cbn; rewrite Hp in *; cbn in *.
  - destruct Hfail as [[= <-] | (f & w1' & [=] & _)]. by repeat split.
  - destruct Hfail as [[=] | (f' & w1' & [= <- <-] & He)].
    rewrite Hv in He. cbn in He. injection He as <-. by repeat split.
  - destruct Hfail as [[=] | (f' & w1' & [= <- <-] & He)].
    rewrite Hv in He. done.
  - destruct Hfail as [[=] | (f' & w1' & [= <- <-] & He)].
    rewrite Hv in He. done.
Qed.

(** X2. When both uploads return and [invoke] raises, the method raises the
    same exception (it is not turned into [False]), after exactly the
    three helper calls, and leaves the world [invoke] left. *)
Theorem invoke_failure_propagates
    (w w1 w2 w3 : World) (f v : SavedFile) (e : Exn) :
  do_save_file photo w = (inr f, w1) →
  do_save_file video w1 = (inr v, w2) →
  do_invoke (built_request f v) w2 = (inl e, w3) →
  result (method_run w) = inl e ∧
  world (method_run w) = w3 ∧
  calls (method_run w) =
    [CSaveFile photo; CSaveFile video; CInvoke (built_request f v)].
Proof.
  intros Hp Hv Hi.
  destruct (set_profile_photo_cases py_bool do_save_file do_invoke photo emoji
              emoji_background video is_public w) as
    [(e' & u1 & Hp' & Hr) | [(f' & u1 & e' & u2 & Hp' & Hv' & Hr) |
     [(f' & u1 & v' & u2 & e' & u3 & Hp' & Hv' & Hi' & Hr) |
      (f' & u1 & v' & u2 & r & u3 & Hp' & Hv' & Hi' & Hr)]]];
    rewrite Hr; cbn; rewrite Hp in Hp'; try discriminate;
    injection Hp' as <- <-; rewrite Hv in Hv'; try discriminate;
    injection Hv' as <- <-; rewrite Hi in Hi'; try discriminate.
  by injection Hi' as <- <-.
Qed.

(** X3. When the three helper calls return, the outcome of the method is
    the outcome of [bool] on the response: it returns the truth value
    [bool] returns, or raises what [bool] raises; the world is the one
    [invoke] left. *)
Theorem result_is_bool_of_response
    (w w1 w2 w3 : World) (f v : SavedFile) (r : Response) :
  do_save_file photo w = (inr f, w1) →
  do_save_file video w1 = (inr v, w2) →
  do_invoke (built_request f v) w2 = (inr r, w3) →
  (∀ b, py_bool r = inr b → result (method_run w) = inr b) ∧
  (∀ e, py_bool r = inl e → result (method_run w) = inl e) ∧
  world (method_run w) = w3.
Proof.
  intros Hp Hv Hi.
  destruct (set_profile_photo_cases py_bool do_save_file do_invoke photo emoji
              emoji_background video is_public w) as
    [(e' & u1 & Hp' & Hr) | [(f' & u1 & e' & u2 & Hp' & Hv' & Hr) |
     [(f' & u1 & v' & u2 & e' & u3 & Hp' & Hv' & Hi' & Hr) |
      (f' & u1 & v' & u2 & r' & u3 & Hp' & Hv' & Hi' & Hr)]]];
    rewrite Hr; cbn; rewrite Hp in Hp'; try discriminate;
    injection Hp' as <- <-; rewrite Hv in Hv'; try discriminate;
    injection Hv' as <- <-; rewrite Hi in Hi'; try discriminate.
  injection Hi' as <- <-. by repeat split.
Qed.

(** X4. No retry: the method calls [save_file] at most once per argument, on
    [photo] before [video], and makes at most three helper calls. *)
Theorem no_helper_call_repeated (w : World) :
  saved (calls (method_run w)) `prefix_of` [photo; video] ∧
  (length (calls (method_run w)) ≤ 3)%nat.
Proof.
  destruct (set_profile_photo_cases py_bool do_save_file do_invoke photo emoji
              emoji_background video is_public w) as
    [(e' & w1 & _ & ->) | [(f & w1 & e' & w2 & _ & _ & ->) |
     [(f & w1 & v & w2 & e' & w3 & _ & _ & _ & ->) |
      (f & w1 & v & w2 & r & w3 & _ & _ & _ & ->)]]]; cbn.
  - split; [by exists [video] | lia].
  - split; [by exists [] | lia].
  - split; [by exists [] | lia].
  - split; [by exists [] | lia].
Qed.

(** X5. Which files are uploaded does not depend on [emoji],
    [emoji_background] or [is_public]. *)
Theorem uploads_independent_of_emoji
    (w : World) (emoji' : option Z) (emoji_background' : background)
    (is_public' : option bool) :
  saved (calls (method_run w)) =
  saved (calls (run do_save_file do_invoke
                  (set_profile_photo py_bool photo emoji' emoji_background'
                     video is_public') w [])).
Proof.
  destruct (set_profile_photo_cases py_bool do_save_file do_invoke photo emoji
              emoji_background video is_public w) as
    [(e1 & w1 & Hp & ->) | [(f & w1 & e1 & w2 & Hp & Hv & ->) |
     [(f & w1 & v & w2 & e1 & w3 & Hp & Hv & _ & ->) |
      (f & w1 & v & w2 & r & w3 & Hp & Hv & _ & ->)]]];
  destruct (set_profile_photo_cases py_bool do_save_file do_invoke photo emoji'
              emoji_background' video is_public' w) as
    [(e2 & u1 & Hp' & ->) | [(f' & u1 & e2 & u2 & Hp' & Hv' & ->) |
     [(f' & u1 & v' & u2 & e2 & u3 & Hp' & Hv' & _ & ->) |
      (f' & u1 & v' & u2 & r' & u3 & Hp' & Hv' & _ & ->)]]];
  rewrite Hp in Hp'; try discriminate; injection Hp' as <- <-;
  try (rewrite Hv in Hv'; try discriminate); reflexivity.
Qed.

(** X6. A single colour and the one-element list of it are interchangeable,
    and so are [None] and the list [[0xFFFFFF]]: the method is the same
    program, for every [emoji]. *)
Theorem scalar_background_is_singleton_list (c : Z) :
  set_profile_photo (SavedFile := SavedFile) py_bool photo emoji (BgInt c)
    video is_public =
  set_profile_photo py_bool photo emoji (BgList [c]) video is_public ∧
  set_profile_photo (SavedFile := SavedFile) py_bool photo emoji BgNone
    video is_public =
  set_profile_photo py_bool photo emoji (BgList [0xFFFFFF%Z]) video is_public.
Proof.
  assert (H1 : emoji_markup emoji (BgInt c) = emoji_markup emoji (BgList [c]))
    by (destruct emoji as [n|]; [|done]; unfold emoji_markup;
        by destruct (truthy (Some n))).
  assert (H2 : emoji_markup emoji BgNone = emoji_markup emoji (BgList [0xFFFFFF%Z]))
    by (destruct emoji as [n|]; [|done]; unfold emoji_markup;
        by destruct (truthy (Some n))).
  unfold set_profile_photo. by rewrite H1, H2.
Qed.

(** X7. A markup is built only from a non-zero [emoji], which becomes its
    [emoji_id]; its colour list is empty only when the caller passed the
    empty list. *)
Theorem emoji_markup_fields (m : VideoSizeEmojiMarkup) :
  emoji_markup emoji emoji_background = Some m →
  emoji = Some (emoji_id m) ∧ emoji_id m ≠ 0%Z ∧
  (background_colors m = [] ↔ emoji_background = BgList []).
Proof.
  unfold emoji_markup, truthy. destruct emoji as [n|]; [|done].
  destruct (Z.eqb_spec n 0) as [?|Hn]; [done|]. cbn.
  intros [= <-]. cbn. split; [done|]. split; [done|].
  destruct emoji_background as [|c|cs]; cbn; split; try done.
  - by intros ->.
  - by intros [= ->].
Qed.

End ClientErrors.

Section ClientErrorInstances.

(** A missing photo: the call raises, and nothing is sent. *)
Lemma failed_upload_sends_no_request_witness :
  (Flaky.do_save_file Flaky.missing_photo []).1 = inl "FileNotFoundError"%string ∧
  result (run Flaky.do_save_file Flaky.do_invoke
            (set_profile_photo Recording.py_bool Flaky.missing_photo None BgNone
               Recording.new_video None) [] [])
    = inl "FileNotFoundError"%string ∧
  invoked (calls (run Flaky.do_save_file Flaky.do_invoke
                    (set_profile_photo Recording.py_bool Flaky.missing_photo
                       None BgNone Recording.new_video None) [] [])) = [].
Proof.
  assert (H : (Flaky.do_save_file Flaky.missing_photo []).1
              = inl "FileNotFoundError"%string) by reflexivity.
  split; [exact H|].
  pose proof (failed_upload_sends_no_request Recording.py_bool
                Flaky.do_save_file Flaky.do_invoke Flaky.missing_photo None
                BgNone Recording.new_video None [] "FileNotFoundError"%string
                (or_introl H)) as (Hr & Hi & _).
  split; [exact Hr | exact Hi].
Defined.

(** Neither photo nor video nor emoji: [invoke] rejects the request and
    the method raises. *)
Lemma invoke_failure_propagates_witness :
  result (run Flaky.do_save_file Flaky.do_invoke
            (set_profile_photo Recording.py_bool None None BgNone None None)
            [] [])
    = inl "BadRequest"%string ∧
  world (run Flaky.do_save_file Flaky.do_invoke
           (set_profile_photo Recording.py_bool None None BgNone None None)
           [] [])
    = ["invoke"%string] ∧
  calls (run Flaky.do_save_file Flaky.do_invoke
           (set_profile_photo Recording.py_bool None None BgNone None None)
           [] [])
    = [CSaveFile None; CSaveFile None;
       CInvoke {| fallback := None; file := None;
                  video_emoji_markup := emoji_markup None BgNone;
                  video := None |}].
Proof.
  apply (invoke_failure_propagates Recording.py_bool Flaky.do_save_file
           Flaky.do_invoke None None BgNone None None [] [] []
           ["invoke"%string] None None "BadRequest"%string); reflexivity.
Defined.

Lemma result_is_bool_of_response_witness :
  result (run Recording.do_save_file Recording.do_invoke
            (set_profile_photo Recording.py_bool Recording.new_photo None BgNone
               None (Some true)) [] [])
    = inr true ∧
  world (run Recording.do_save_file Recording.do_invoke
           (set_profile_photo Recording.py_bool Recording.new_photo None BgNone
              None (Some true)) [] [])
    = ["save_file"; "save_file"; "invoke"]%string.
Proof.
  pose proof (result_is_bool_of_response Recording.py_bool
                Recording.do_save_file Recording.do_invoke Recording.new_photo
                None BgNone None (Some true)
                [] ["save_file"%string] ["save_file"%string; "save_file"%string]
                ["save_file"%string; "save_file"%string; "invoke"%string]
                (Some "new_photo.jpg"%string) None true
                eq_refl eq_refl eq_refl) as (Hb & _ & Hw).
  split; [exact (Hb true eq_refl) | exact Hw].
Defined.

(** All three helpers return, and [bool] raises on the response. *)
Example bool_of_response_raises :
  result (run Recording.do_save_file Flaky.do_invoke_false
            (set_profile_photo Flaky.py_bool Recording.new_photo None BgNone
               None None) [] [])
    = inl "TypeError"%string.
Proof. reflexivity. Qed.

Lemma emoji_markup_fields_witness :
  emoji_markup (Some 5%Z) (BgList []) =
    Some {| emoji_id := 5%Z; background_colors := [] |} ∧
  Some 5%Z = Some (emoji_id {| emoji_id := 5%Z; background_colors := [] |}) ∧
  emoji_id {| emoji_id := 5%Z; background_colors := [] |} ≠ 0%Z ∧
  (background_colors {| emoji_id := 5%Z; background_colors := [] |} = [] ↔
   BgList [] = BgList []).
Proof.
  split; [reflexivity|].
  apply (emoji_markup_fields (Some 5%Z) (BgList [])
           {| emoji_id := 5%Z; background_colors := [] |}).
  reflexivity.
Defined.

End ClientErrorInstances.
